(** * code-parser.ts: the code model and the [CodeParser] facade

    A shallow embedding of [src/code-parsing/common/code-parser.ts].

    The file declares the interfaces of the code model ([Package],
    [Modifiers], [Type], [Import], [ParsedCodeFile], ...), the
    [LanguageHandler] interface, and the class [CodeParser], whose single
    method [parseCode] calls the handler twice and packs the two results.

    The handler is an arbitrary object: its methods may read and write state
    of their own and may throw.  A method call is therefore a function from
    the state the handler can reach to a completion (a returned value or a
    thrown one) and a new state, and [parseCode] is written in a small
    state-and-exception monad that also records which handler methods were
    invoked, with which argument, in which order. *)

From stdpp Require Import base list strings.

(* ===================================================================== *)
(** ** The code model *)
(* ===================================================================== *)

(** [interface Package] *)
Module Package.
Record t : Type := mk { name : string }.
End Package.

(** [interface Modifiers] *)
Module Modifiers.
(** The string-literal union ['public' | 'private' | 'protected' | 'default']. *)
Inductive Visibility : Type := public | private | protected | default.

Record t : Type := mk {
  isStatic : bool;
  isFinal : bool;
  isAbstract : bool;
  visibility : Visibility
}.
End Modifiers.

(** [interface Type].  [Type] is reserved in Rocq, so the interface lives in
    the module [CodeType].  The arrays [superClasses] and [interfaces] hold
    values of the interface itself: a nested inductive.  (An inductive value
    is a finite tree; a JavaScript object graph with a cycle has no
    counterpart here.  [parseCode] never looks inside a [Type].) *)
Module CodeType.
(** The string-literal union ['class' | 'interface' | 'enum' | 'annotation']. *)
Inductive Kind : Type := class | interface | enum | annotation.

#[warnings="-register-all"]
Inductive t : Type := mk {
  package : Package.t;
  name : string;
  modifiers : Modifiers.t;
  type : Kind;
  superClasses : list t;
  interfaces : list t
}.

(** The doc comment of [superClasses]: "This is only applicable if the type
    is a class."  A value respects it when a non-class has no super class. *)
Definition superClassesApplicable (ty : t) : bool :=
  match type ty, superClasses ty with
  | class, _ => true
  | _, [] => true
  | _, _ :: _ => false
  end.
End CodeType.

(** [interface Parameter] ([Parameter] is a vernacular keyword, hence the
    module name). *)
Module CodeParameter.
Record t : Type := mk { name : string; type : CodeType.t }.
End CodeParameter.

(** [interface TypeMember] and the two interfaces that extend it, [Field]
    and [Method]: a value typed [TypeMember] is any of the three shapes. *)
Module TypeMember.
Inductive t : Type :=
| Member (name : string) (modifiers : Modifiers.t)
| Field (name : string) (modifiers : Modifiers.t) (type : CodeType.t)
| Method (name : string) (modifiers : Modifiers.t)
    (returnType : CodeType.t) (parameters : list CodeParameter.t).

Definition name (m : t) : string :=
  match m with
  | Member n _ | Field n _ _ | Method n _ _ _ => n
  end.

Definition modifiers (m : t) : Modifiers.t :=
  match m with
  | Member _ md | Field _ md _ | Method _ md _ _ => md
  end.
End TypeMember.

(** [interface TypeDetails] *)
Module TypeDetails.
Record t : Type := mk { type : CodeType.t; typeMembers : list TypeMember.t }.
End TypeDetails.

(** [interface Import] ([Import] is a vernacular keyword too). *)
Module CodeImport.
Record t : Type := mk { value : string }.
End CodeImport.

(** [interface ParsedCodeFile] *)
Module ParsedCodeFile.
Record t : Type := mk { imports : list CodeImport.t; types : list CodeType.t }.
End ParsedCodeFile.

(* ===================================================================== *)
(** ** Handlers, the facade object, and the monad of method bodies *)
(* ===================================================================== *)

Section Facade.

(** [W] is the state a handler can read and write (its own fields, whatever
    it closes over); [E] is the type of thrown values. *)
Context {W E : Type}.

(** How a call ends: it returns a value or throws one. *)
Inductive Completion (A : Type) : Type :=
| Normal (a : A)
| Throw (e : E).
#[global] Arguments Normal {A} a.
#[global] Arguments Throw {A} e.

(** [interface LanguageHandler]: two methods taking the code.  Each is given
    the handler-reachable state and answers with a completion and the state
    it leaves behind. *)
Record LanguageHandler : Type := {
  parseImports : string → W → Completion (list CodeImport.t) * W;
  parseTypes : string → W → Completion (list CodeType.t) * W
}.

(** [class CodeParser]: the constructor's parameter property
    [private readonly languageHandler: LanguageHandler] is its only field. *)
Record CodeParser : Type := { languageHandler : LanguageHandler }.

(** [new CodeParser(h)] *)
Definition newCodeParser (h : LanguageHandler) : CodeParser :=
  {| languageHandler := h |}.

(** The store a method body of the facade runs in: the fields of the
    receiver [this], and the state of the handler's side. *)
Record Store : Type := { facade : CodeParser; world : W }.

(** One invocation of a handler method: the receiver, the method, the
    argument. *)
Inductive Call : Type :=
| CallParseImports (h : LanguageHandler) (code : string)
| CallParseTypes (h : LanguageHandler) (code : string).

Definition callee (ev : Call) : LanguageHandler :=
  match ev with CallParseImports h _ | CallParseTypes h _ => h end.

Definition argument (ev : Call) : string :=
  match ev with CallParseImports _ c | CallParseTypes _ c => c end.

(** What running a piece of code gives: how it completed, the store it left,
    and the handler invocations it made, oldest first. *)
Record Run (A : Type) : Type := {
  completion : Completion A;
  final : Store;
  calls : list Call
}.
#[global] Arguments completion {A} _.
#[global] Arguments final {A} _.
#[global] Arguments calls {A} _.

Definition M (A : Type) : Type := Store → Run A.

(** [return a] *)
#[global] Instance M_ret : MRet M := λ A (a : A) (s : Store),
  {| completion := Normal a; final := s; calls := [] |}.

(** Sequencing of statements: a thrown value skips everything after it. *)
#[global] Instance M_bind : MBind M := λ A B (k : A → M B) (m : M A) (s : Store),
  let r := m s in
  match completion r with
  | Normal a =>
      let r' := k a (final r) in
      {| completion := completion r';
         final := final r';
         calls := calls r ++ calls r' |}
  | Throw e =>
      {| completion := Throw e; final := final r; calls := calls r |}
  end.

(** The expression [this.languageHandler]: a read of the receiver's field. *)
Definition getLanguageHandler : M LanguageHandler := λ s,
  {| completion := Normal (languageHandler (facade s));
     final := s;
     calls := [] |}.

(** The call [h.parseImports(code)].  The handler works on its own side of
    the store; the receiver's field is [private readonly] and out of its
    reach. *)
Definition invokeParseImports (h : LanguageHandler) (code : string)
  : M (list CodeImport.t) := λ s,
  let out := parseImports h code (world s) in
  {| completion := out.1;
     final := {| facade := facade s; world := out.2 |};
     calls := [CallParseImports h code] |}.

(** The call [h.parseTypes(code)]. *)
Definition invokeParseTypes (h : LanguageHandler) (code : string)
  : M (list CodeType.t) := λ s,
  let out := parseTypes h code (world s) in
  {| completion := out.1;
     final := {| facade := facade s; world := out.2 |};
     calls := [CallParseTypes h code] |}.

(** [CodeParser.parseCode]:
<<
    const imports: Import[] = this.languageHandler.parseImports(code);
    const types: Type[] = this.languageHandler.parseTypes(code);
    return { imports, types };
>> *)
Definition parseCode (code : string) : M ParsedCodeFile.t :=
  h ← getLanguageHandler;
  imports ← invokeParseImports h code;
  h' ← getLanguageHandler;
  types ← invokeParseTypes h' code;
  mret {| ParsedCodeFile.imports := imports; ParsedCodeFile.types := types |}.

(** A caller's [try { ... } catch (e) { ... }] around a computation: the
    completion becomes a value. *)
Definition try {A : Type} (m : M A) : M (Completion A) := λ s,
  let r := m s in
  {| completion := Normal (completion r); final := final r; calls := calls r |}.

(** A caller that hands several texts, one after the other, to the same
    facade object and keeps every completion. *)
Fixpoint parseEach (codes : list string) : M (list (Completion ParsedCodeFile.t)) :=
  match codes with
  | [] => mret []
  | c :: cs =>
      r ← try (parseCode c);
      rs ← parseEach cs;
      mret (r :: rs)
  end.

(** A handler is deterministic when what a call returns or throws depends on
    the code alone, not on the state the call starts from. *)
Definition deterministic (h : LanguageHandler) : Prop :=
  ∀ (c : string) (w w' : W),
    (parseImports h c w).1 = (parseImports h c w').1 ∧
    (parseTypes h c w).1 = (parseTypes h c w').1.

End Facade.

(** Which method an invocation names. *)
Definition isParseImports {W E : Type} (ev : @Call W E) : bool :=
  match ev with CallParseImports _ _ => true | CallParseTypes _ _ => false end.

Definition isParseTypes {W E : Type} (ev : @Call W E) : bool :=
  match ev with CallParseImports _ _ => false | CallParseTypes _ _ => true end.

(* ===================================================================== *)
(** ** Stub handlers *)
(* ===================================================================== *)

(** Concrete handlers to run the facade on.  Their state is a counter of the
    invocations received so far (so they do have a side effect); they throw
    strings. *)
Module Stub.

(** A handler answering from two tables and counting its invocations. *)
Definition handler
    (imports : string → Completion (E := string) (list CodeImport.t))
    (types : string → Completion (E := string) (list CodeType.t))
  : @LanguageHandler nat string :=
  {| parseImports := λ code n, (imports code, S n);
     parseTypes := λ code n, (types code, S n) |}.

(** A store whose facade was constructed with [h], before any invocation. *)
Definition fresh (h : @LanguageHandler nat string) : @Store nat string :=
  {| facade := newCodeParser h; world := 0 |}.

Definition plain : Modifiers.t :=
  {| Modifiers.isStatic := false;
     Modifiers.isFinal := false;
     Modifiers.isAbstract := false;
     Modifiers.visibility := Modifiers.public |}.

Definition declared (k : CodeType.Kind) (n : string) (supers : list CodeType.t)
  : CodeType.t :=
  {| CodeType.package := {| Package.name := "a.b" |};
     CodeType.name := n;
     CodeType.modifiers := plain;
     CodeType.type := k;
     CodeType.superClasses := supers;
     CodeType.interfaces := [] |}.

(** [parseImports("X") = [{value: "a.b.C"}]], [parseTypes("X") = []]; any
    other text makes it throw. *)
Definition roundTrip : @LanguageHandler nat string :=
  handler
    (λ code, if String.eqb code "X"
             then Normal [ {| CodeImport.value := "a.b.C" |} ]
             else Throw "unexpected text")
    (λ code, if String.eqb code "X" then Normal [] else Throw "unexpected text").

(** Empty sequences from both methods. *)
Definition nothing : @LanguageHandler nat string :=
  handler (λ _, Normal []) (λ _, Normal []).

(** Two types, a class and then an interface. *)
Definition classThenInterface : @LanguageHandler nat string :=
  handler
    (λ _, Normal [])
    (λ _, Normal [ declared CodeType.class "Shape" [];
                   declared CodeType.interface "Drawable" [] ]).

(** An enum without super classes, and then one that (against the
    documentation of [superClasses]) lists a super class. *)
Definition enums : @LanguageHandler nat string :=
  handler
    (λ _, Normal [])
    (λ _, Normal [ declared CodeType.enum "Colour" [];
                   declared CodeType.enum "Odd"
                     [ declared CodeType.class "Base" [] ] ]).

(** [parseImports] throws; [parseTypes] would return. *)
Definition importsThrow : @LanguageHandler nat string :=
  handler (λ _, Throw "bad import") (λ _, Normal []).

(** [parseImports] returns; [parseTypes] throws. *)
Definition typesThrow : @LanguageHandler nat string :=
  handler (λ _, Normal []) (λ _, Throw "bad type").

End Stub.

(** A handler is stateless when no call of either method changes the state
    it is run in (it may still throw). *)
Definition stateless {W E : Type} (h : @LanguageHandler W E) : Prop :=
  ∀ (c : string) (w : W),
    (parseImports h c w).2 = w ∧ (parseTypes h c w).2 = w.

(** A stateless stub: it ignores and keeps the counter, returns one import
    per text that is not empty, and throws on the types of the text ["?"]. *)
Definition statelessStub : @LanguageHandler nat string :=
  {| parseImports := λ code n,
       (if String.eqb code ""
        then Normal []
        else Normal [ {| CodeImport.value := code |} ], n);
     parseTypes := λ code n,
       (if String.eqb code "?" then Throw "no types" else Normal [], n) |}.

(* ===================================================================== *)
(** ** How [parseCode] runs *)
(* ===================================================================== *)

Section Properties.

Context {W E : Type}.
Implicit Types (h : @LanguageHandler W E) (s : @Store W E) (c : string).
Implicit Types (w : W) (e : E).
Implicit Types (imps : list CodeImport.t) (tys : list CodeType.t).

(** The whole run of [parseCode], by cases on how the two calls end. *)
Lemma parseCode_run c s :
  parseCode c s =
    let h := languageHandler (facade s) in
    let i := parseImports h c (world s) in
    match i.1 with
    | Throw e =>
        {| completion := Throw e;
           final := {| facade := facade s; world := i.2 |};
           calls := [CallParseImports h c] |}
    | Normal imps =>
        let t := parseTypes h c i.2 in
        {| completion :=
             match t.1 with
             | Normal tys =>
                 Normal {| ParsedCodeFile.imports := imps;
                           ParsedCodeFile.types := tys |}
             | Throw e => Throw e
             end;
           final := {| facade := facade s; world := t.2 |};
           calls := [CallParseImports h c; CallParseTypes h c] |}
    end.
Proof.
  unfold parseCode, mbind, M_bind, mret, M_ret; cbn.
  destruct (parseImports (languageHandler (facade s)) c (world s)) as [[imps|e] w1];
    cbn; [|reflexivity].
  destruct (parseTypes (languageHandler (facade s)) c w1) as [[tys|e] w2];
    reflexivity.
Qed.

(** Both calls return. *)
Lemma parseCode_returns h c s imps tys w1 w2 :
  languageHandler (facade s) = h →
  parseImports h c (world s) = (Normal imps, w1) →
  parseTypes h c w1 = (Normal tys, w2) →
  parseCode c s =
    {| completion := Normal {| ParsedCodeFile.imports := imps;
                               ParsedCodeFile.types := tys |};
       final := {| facade := facade s; world := w2 |};
       calls := [CallParseImports h c; CallParseTypes h c] |}.
Proof.
  intros <- Hi Ht. rewrite parseCode_run; cbn. rewrite Hi; cbn. now rewrite Ht.
Qed.

(** The first call throws. *)
Lemma parseCode_imports_throw h c s e w1 :
  languageHandler (facade s) = h →
  parseImports h c (world s) = (Throw e, w1) →
  parseCode c s =
    {| completion := Throw e;
       final := {| facade := facade s; world := w1 |};
       calls := [CallParseImports h c] |}.
Proof.
  intros <- Hi. rewrite parseCode_run; cbn. now rewrite Hi.
Qed.

(** The first call returns, the second throws. *)
Lemma parseCode_types_throw h c s imps e w1 w2 :
  languageHandler (facade s) = h →
  parseImports h c (world s) = (Normal imps, w1) →
  parseTypes h c w1 = (Throw e, w2) →
  parseCode c s =
    {| completion := Throw e;
       final := {| facade := facade s; world := w2 |};
       calls := [CallParseImports h c; CallParseTypes h c] |}.
Proof.
  intros <- Hi Ht. rewrite parseCode_run; cbn. rewrite Hi; cbn. now rewrite Ht.
Qed.

(** [parseCode] never writes the receiver. *)
Lemma parseCode_facade c s : facade (final (parseCode c s)) = facade s.
Proof.
  rewrite parseCode_run; cbn.
  destruct (parseImports _ c (world s)) as [[imps|e] w1]; reflexivity.
Qed.

(** Every invocation [parseCode] makes is on the receiver's handler, with
    the text it was given. *)
Lemma parseCode_calls c s :
  calls (parseCode c s) = [CallParseImports (languageHandler (facade s)) c]
  ∨ calls (parseCode c s) =
      [CallParseImports (languageHandler (facade s)) c;
       CallParseTypes (languageHandler (facade s)) c].
Proof.
  rewrite parseCode_run; cbn.
  destruct (parseImports _ c (world s)) as [[imps|e] w1]; cbn; auto.
Qed.

(** A sequence of invocations on one facade object leaves it alone too. *)
Lemma parseEach_facade (codes : list string) s :
  facade (final (parseEach codes s)) = facade s.
Proof.
  revert s; induction codes as [|c cs IH]; intros s; [reflexivity|].
  cbn -[parseCode]. unfold mbind, M_bind, try; cbn -[parseCode].
  destruct (completion (parseEach cs _)); cbn -[parseCode];
    rewrite IH; apply parseCode_facade.
Qed.

(** What a sequence of invocations calls: the calls of the first, then those
    of the rest run from the store the first one left. *)
Lemma parseEach_calls_cons c (cs : list string) s :
  calls (parseEach (c :: cs) s) =
    calls (parseCode c s) ++ calls (parseEach cs (final (parseCode c s))).
Proof.
  cbn -[parseCode]. unfold mbind, M_bind, try; cbn -[parseCode].
  destruct (completion (parseEach cs _)); cbn -[parseCode];
    [now rewrite app_nil_r|reflexivity].
Qed.

(* ===================================================================== *)
(** ** The claims *)
(* ===================================================================== *)

(** C1.  When the two handler calls return, [parseCode] on a facade
    constructed with [h] returns the record made of exactly the two
    sequences the handler returned: nothing is transformed, reordered or
    filtered. *)
Theorem parseCode_packs_handler_results h c s imps tys w1 w2 :
  facade s = newCodeParser h →
  parseImports h c (world s) = (Normal imps, w1) →
  parseTypes h c w1 = (Normal tys, w2) →
  completion (parseCode c s) =
    Normal {| ParsedCodeFile.imports := imps; ParsedCodeFile.types := tys |}.
Proof.
  intros Hf Hi Ht.
  rewrite (parseCode_returns h c s imps tys w1 w2); [reflexivity| |done..].
  now rewrite Hf.
Qed.

(** C2.  [parseCode] invokes [parseImports] first and [parseTypes], if at
    all, second.  When [parseImports] throws [e], [parseCode] throws that
    same [e] and [parseTypes] is not invoked.  When [parseImports] returns,
    [parseTypes] is invoked next, on the same text, from the state
    [parseImports] left, however it then completes. *)
Theorem parseCode_imports_before_types h c s :
  facade s = newCodeParser h →
  (calls (parseCode c s) = [CallParseImports h c]
   ∨ calls (parseCode c s) = [CallParseImports h c; CallParseTypes h c])
  ∧ (∀ e w1,
      parseImports h c (world s) = (Throw e, w1) →
      completion (parseCode c s) = Throw e
      ∧ calls (parseCode c s) = [CallParseImports h c]
      ∧ filter isParseTypes (calls (parseCode c s)) = [])
  ∧ (∀ imps w1,
      parseImports h c (world s) = (Normal imps, w1) →
      calls (parseCode c s) = [CallParseImports h c; CallParseTypes h c]
      ∧ world (final (parseCode c s)) = (parseTypes h c w1).2).
Proof.
  intros Hf. split; [|split].
  - pose proof (parseCode_calls c s) as H. now rewrite Hf in H.
  - intros e w1 Hi.
    rewrite (parseCode_imports_throw h c s e w1); [done| |done].
    now rewrite Hf.
  - intros imps w1 Hi.
    rewrite parseCode_run; cbn. rewrite Hf; cbn. now rewrite Hi.
Qed.

(** C3.  [parseCode] throws [e] exactly when one of the two handler calls it
    makes throws [e]: the first, or (the first having returned) the second.
    The thrown value is the handler's own, and a run that throws yields no
    [ParsedCodeFile]. *)
Theorem parseCode_throws_iff_handler_throws h c s e :
  facade s = newCodeParser h →
  (completion (parseCode c s) = Throw e
   ↔ (parseImports h c (world s)).1 = Throw e
     ∨ ∃ imps, (parseImports h c (world s)).1 = Normal imps
               ∧ (parseTypes h c (parseImports h c (world s)).2).1 = Throw e)
  ∧ (completion (parseCode c s) = Throw e →
     ∀ r, completion (parseCode c s) ≠ Normal r).
Proof.
  intros Hf. split; [|intros -> r; discriminate].
  rewrite parseCode_run; cbn. rewrite Hf; cbn.
  destruct (parseImports h c (world s)) as [[imps|e1] w1]; cbn.
  - destruct (parseTypes h c w1) as [[tys|e2] w2]; cbn.
    + split; [discriminate|]. intros [?|(? & _ & ?)]; discriminate.
    + split.
      * intros [= ->]. right. now exists imps.
      * intros [?|(? & _ & [= ->])]; [discriminate|reflexivity].
  - split; [intros [= ->]; now left|].
    intros [[= ->]|(? & ? & _)]; [reflexivity|discriminate].
Qed.

(** C4.  For a deterministic handler, [parseCode] completes the same way on
    any two facades bound to it, whatever the stores are, and so also when
    invoked a second time right after the first; the second invocation asks
    the handler again (nothing is cached); the handler is always given the
    text [c] itself; and the store [parseCode] leaves differs from the one
    it found only by what the handler's own calls did. *)
Theorem parseCode_pure h c s1 s2 :
  deterministic h →
  facade s1 = newCodeParser h →
  facade s2 = newCodeParser h →
  completion (parseCode c s1) = completion (parseCode c s2)
  ∧ completion (parseCode c (final (parseCode c s1))) = completion (parseCode c s1)
  ∧ calls (parseCode c (final (parseCode c s1))) = calls (parseCode c s1)
  ∧ Forall (λ ev, argument ev = c) (calls (parseCode c s1))
  ∧ final (parseCode c s1) =
      {| facade := facade s1;
         world := match (parseImports h c (world s1)).1 with
                  | Normal _ =>
                      (parseTypes h c (parseImports h c (world s1)).2).2
                  | Throw _ => (parseImports h c (world s1)).2
                  end |}.
Proof.
  intros Hdet Hf1 Hf2.
  assert (Hsame : ∀ s s', facade s = newCodeParser h → facade s' = newCodeParser h →
            completion (parseCode c s) = completion (parseCode c s')
            ∧ calls (parseCode c s) = calls (parseCode c s')).
  { intros s s' Hs Hs'. rewrite !parseCode_run; cbn. rewrite Hs, Hs'; cbn.
    destruct (Hdet c (world s) (world s')) as [Hi _]. rewrite <- Hi.
    destruct (parseImports h c (world s)).1 as [imps|e]; cbn; [|done].
    destruct (Hdet c (parseImports h c (world s)).2 (parseImports h c (world s')).2)
      as [_ Ht].
    now rewrite Ht. }
  assert (Hf1' : facade (final (parseCode c s1)) = newCodeParser h)
    by now rewrite parseCode_facade.
  split; [apply Hsame; done|].
  split; [apply Hsame; done|].
  split; [apply Hsame; done|].
  split.
  - destruct (parseCode_calls c s1) as [-> | ->]; repeat constructor.
  - rewrite parseCode_run; cbn. rewrite Hf1; cbn.
    destruct (parseImports h c (world s1)) as [[imps|e] w1]; reflexivity.
Qed.

(** C5.  [parseCode] does not validate what the handler returns.  Whenever
    the two calls return, [parseCode] returns, whatever the [Type] values
    are, and its [types] is the handler's sequence itself: an enum returned
    with no super classes is found at the same index with no super classes,
    and a [Type] that breaks the documentation of [superClasses] is found at
    the same index, still breaking it. *)
Theorem parseCode_no_validation h c s imps tys w1 w2 :
  facade s = newCodeParser h →
  parseImports h c (world s) = (Normal imps, w1) →
  parseTypes h c w1 = (Normal tys, w2) →
  ∃ r,
    completion (parseCode c s) = Normal r
    ∧ ParsedCodeFile.types r = tys
    ∧ (∀ (i : nat) (ty : CodeType.t),
         tys !! i = Some ty →
         CodeType.type ty = CodeType.enum →
         CodeType.superClasses ty = [] →
         ∃ ty', ParsedCodeFile.types r !! i = Some ty'
                ∧ CodeType.type ty' = CodeType.enum
                ∧ CodeType.superClasses ty' = [])
    ∧ (∀ (i : nat) (ty : CodeType.t),
         tys !! i = Some ty →
         CodeType.superClassesApplicable ty = false →
         ∃ ty', ParsedCodeFile.types r !! i = Some ty'
                ∧ CodeType.superClassesApplicable ty' = false).
Proof.
  intros Hf Hi Ht.
  exists {| ParsedCodeFile.imports := imps; ParsedCodeFile.types := tys |}.
  rewrite (parseCode_returns h c s imps tys w1 w2); [| now rewrite Hf | done..].
  cbn. repeat split; eauto.
Qed.

(** C6.  When the handler returns a class and then an interface as the
    types of a text (its two calls returning), [parseCode] returns a record
    whose [types] has the class at index 0 and the interface at index 1, and
    nothing else. *)
Theorem parseCode_preserves_type_order h c s imps (t0 t1 : CodeType.t) w1 w2 :
  facade s = newCodeParser h →
  parseImports h c (world s) = (Normal imps, w1) →
  parseTypes h c w1 = (Normal [t0; t1], w2) →
  CodeType.type t0 = CodeType.class →
  CodeType.type t1 = CodeType.interface →
  ∃ r,
    completion (parseCode c s) = Normal r
    ∧ ParsedCodeFile.types r !! 0 = Some t0
    ∧ ParsedCodeFile.types r !! 1 = Some t1
    ∧ length (ParsedCodeFile.types r) = 2
    ∧ CodeType.type <$> ParsedCodeFile.types r
        = [CodeType.class; CodeType.interface].
Proof.
  intros Hf Hi Ht Hk0 Hk1.
  exists {| ParsedCodeFile.imports := imps; ParsedCodeFile.types := [t0; t1] |}.
  rewrite (parseCode_returns h c s imps [t0; t1] w1 w2); [| now rewrite Hf | done..].
  cbn. now rewrite Hk0, Hk1.
Qed.

(** C7.  With a handler for which [parseImports("X")] returns
    [[{value: "a.b.C"}]] and [parseTypes("X")] returns [[]], [parseCode("X")]
    returns [{imports: [{value: "a.b.C"}], types: []}]. *)
Theorem parseCode_round_trip h s w1 w2 :
  facade s = newCodeParser h →
  parseImports h "X" (world s) = (Normal [ {| CodeImport.value := "a.b.C" |} ], w1) →
  parseTypes h "X" w1 = (Normal [], w2) →
  completion (parseCode "X" s) =
    Normal {| ParsedCodeFile.imports := [ {| CodeImport.value := "a.b.C" |} ];
              ParsedCodeFile.types := [] |}.
Proof.
  intros Hf Hi Ht.
  rewrite (parseCode_returns h "X" s _ _ w1 w2 ltac:(now rewrite Hf) Hi Ht).
  reflexivity.
Qed.

(** C8.  With a handler returning the empty sequence from both calls on the
    empty text, [parseCode("")] returns [{imports: [], types: []}]. *)
Theorem parseCode_empty_input h s w1 w2 :
  facade s = newCodeParser h →
  parseImports h "" (world s) = (Normal [], w1) →
  parseTypes h "" w1 = (Normal [], w2) →
  completion (parseCode "" s) =
    Normal {| ParsedCodeFile.imports := []; ParsedCodeFile.types := [] |}.
Proof.
  intros Hf Hi Ht.
  rewrite (parseCode_returns h "" s _ _ w1 w2 ltac:(now rewrite Hf) Hi Ht).
  reflexivity.
Qed.

(** C9.  A [CodeParser] is its one handler reference, set by the
    constructor.  An invocation of [parseCode], and any sequence of
    invocations on the same object, leaves that field as it was, whether the
    handler returns or throws, and every handler call made on the way has
    the constructor's handler as its receiver. *)
Theorem parseCode_keeps_handler h (codes : list string) s :
  facade s = newCodeParser h →
  (∀ p : @CodeParser W E, p = newCodeParser (languageHandler p))
  ∧ (∀ c, facade (final (parseCode c s)) = newCodeParser h
          ∧ Forall (λ ev, callee ev = h) (calls (parseCode c s)))
  ∧ facade (final (parseEach codes s)) = newCodeParser h
  ∧ Forall (λ ev, callee ev = h) (calls (parseEach codes s)).
Proof.
  intros Hf.
  assert (Hone : ∀ c s', facade s' = newCodeParser h →
            Forall (λ ev, callee ev = h) (calls (parseCode c s'))).
  { intros c s' Hs'. destruct (parseCode_calls c s') as [-> | ->];
      rewrite Hs'; repeat constructor. }
  split; [now intros []|].
  split; [intros c; split; [now rewrite parseCode_facade | now apply Hone]|].
  split; [now rewrite parseEach_facade|].
  revert s Hf. induction codes as [|c cs IH]; intros s Hf; [constructor|].
  rewrite parseEach_calls_cons. apply Forall_app. split; [now apply Hone|].
  apply IH. now rewrite parseCode_facade.
Qed.

(** C10.  When the two handler calls return, one invocation of
    [parseCode c] makes exactly two handler calls: [parseImports], once, and
    then [parseTypes], once, each with the text [c] itself. *)
Theorem parseCode_calls_each_once h c s imps tys w1 w2 :
  facade s = newCodeParser h →
  parseImports h c (world s) = (Normal imps, w1) →
  parseTypes h c w1 = (Normal tys, w2) →
  calls (parseCode c s) = [CallParseImports h c; CallParseTypes h c]
  ∧ length (filter isParseImports (calls (parseCode c s))) = 1
  ∧ length (filter isParseTypes (calls (parseCode c s))) = 1
  ∧ Forall (λ ev, argument ev = c) (calls (parseCode c s)).
Proof.
  intros Hf Hi Ht.
  rewrite (parseCode_returns h c s imps tys w1 w2); [| now rewrite Hf | done..].
  cbn. repeat split; repeat constructor.
Qed.

End Properties.

(* ===================================================================== *)
(** ** The theorems at the stub handlers *)
(* ===================================================================== *)

(** C1 at [Stub.roundTrip] and the text ["X"]. *)
Lemma parseCode_packs_handler_results_witness :
  facade (Stub.fresh Stub.roundTrip) = newCodeParser Stub.roundTrip
  ∧ completion (parseCode "X" (Stub.fresh Stub.roundTrip)) =
      Normal {| ParsedCodeFile.imports := [ {| CodeImport.value := "a.b.C" |} ];
                ParsedCodeFile.types := [] |}.
Proof.
  split; [reflexivity|].
  apply (parseCode_packs_handler_results
           Stub.roundTrip "X" (Stub.fresh Stub.roundTrip) _ _ 1 2);
    reflexivity.
Defined.

(** C2 at [Stub.importsThrow], where the thrown string comes out after one
    call, and at [Stub.typesThrow], where [parseImports] returns and
    [parseTypes] is invoked after it. *)
Lemma parseCode_imports_before_types_witness :
  (parseImports Stub.importsThrow "class A {}" 0 = (Throw "bad import", 1)
   ∧ completion (parseCode "class A {}" (Stub.fresh Stub.importsThrow))
       = Throw "bad import"
   ∧ calls (parseCode "class A {}" (Stub.fresh Stub.importsThrow))
       = [CallParseImports Stub.importsThrow "class A {}"]
   ∧ filter isParseTypes
       (calls (parseCode "class A {}" (Stub.fresh Stub.importsThrow))) = [])
  ∧ (parseImports Stub.typesThrow "class A {}" 0 = (Normal [], 1)
     ∧ calls (parseCode "class A {}" (Stub.fresh Stub.typesThrow))
         = [CallParseImports Stub.typesThrow "class A {}";
            CallParseTypes Stub.typesThrow "class A {}"]
     ∧ world (final (parseCode "class A {}" (Stub.fresh Stub.typesThrow))) = 2).
Proof.
  split.
  - split; [reflexivity|].
    destruct (parseCode_imports_before_types
                Stub.importsThrow "class A {}" (Stub.fresh Stub.importsThrow)
                eq_refl) as (_ & Hthrow & _).
    exact (Hthrow "bad import" 1 eq_refl).
  - split; [reflexivity|].
    destruct (parseCode_imports_before_types
                Stub.typesThrow "class A {}" (Stub.fresh Stub.typesThrow)
                eq_refl) as (_ & _ & Hreturn).
    exact (Hreturn [] 1 eq_refl).
Defined.

(** C3 at [Stub.typesThrow]: the second call throws, so [parseCode] does. *)
Lemma parseCode_throws_iff_handler_throws_witness :
  completion (parseCode "" (Stub.fresh Stub.typesThrow)) = Throw "bad type"
  ∧ ∀ r, completion (parseCode "" (Stub.fresh Stub.typesThrow)) ≠ Normal r.
Proof.
  pose proof (parseCode_throws_iff_handler_throws
                Stub.typesThrow "" (Stub.fresh Stub.typesThrow) "bad type"
                eq_refl) as [Hiff Hnone].
  assert (Hthrow : completion (parseCode "" (Stub.fresh Stub.typesThrow))
                   = Throw "bad type").
  { apply Hiff. right. exists []. split; reflexivity. }
  split; [exact Hthrow | exact (Hnone Hthrow)].
Defined.

(** C4 at [Stub.roundTrip], from a fresh store and from one whose counter
    already stands at 7. *)
Lemma parseCode_pure_witness :
  deterministic Stub.roundTrip
  ∧ completion (parseCode "X" (Stub.fresh Stub.roundTrip))
      = completion (parseCode "X" {| facade := newCodeParser Stub.roundTrip;
                                     world := 7 |})
  ∧ world (final (parseCode "X" (Stub.fresh Stub.roundTrip))) = 2.
Proof.
  assert (Hdet : deterministic Stub.roundTrip)
    by (intros c w w'; split; reflexivity).
  split; [exact Hdet|].
  pose proof (parseCode_pure
                Stub.roundTrip "X" (Stub.fresh Stub.roundTrip)
                {| facade := newCodeParser Stub.roundTrip; world := 7 |}
                Hdet eq_refl eq_refl) as (Hsame & _ & _ & _ & Hfinal).
  split; [exact Hsame|]. now rewrite Hfinal.
Defined.

(** C5 at [Stub.enums]: the sound enum and the unsound one both come out. *)
Lemma parseCode_no_validation_witness :
  ∃ r,
    completion (parseCode "enum Colour {}" (Stub.fresh Stub.enums)) = Normal r
    ∧ (∃ ty, ParsedCodeFile.types r !! 0 = Some ty
             ∧ CodeType.type ty = CodeType.enum
             ∧ CodeType.superClasses ty = [])
    ∧ (∃ ty, ParsedCodeFile.types r !! 1 = Some ty
             ∧ CodeType.superClassesApplicable ty = false).
Proof.
  destruct (parseCode_no_validation
              Stub.enums "enum Colour {}" (Stub.fresh Stub.enums) _ _ 1 2
              eq_refl eq_refl eq_refl) as (r & Hr & _ & Hsound & Hunsound).
  exists r. split; [exact Hr|]. split.
  - exact (Hsound 0 _ eq_refl eq_refl eq_refl).
  - exact (Hunsound 1 _ eq_refl eq_refl).
Defined.

(** C6 at [Stub.classThenInterface]. *)
Lemma parseCode_preserves_type_order_witness :
  ∃ r,
    completion (parseCode "class Shape {} interface Drawable {}"
                  (Stub.fresh Stub.classThenInterface)) = Normal r
    ∧ ParsedCodeFile.types r !! 0 = Some (Stub.declared CodeType.class "Shape" [])
    ∧ ParsedCodeFile.types r !! 1
        = Some (Stub.declared CodeType.interface "Drawable" [])
    ∧ length (ParsedCodeFile.types r) = 2
    ∧ CodeType.type <$> ParsedCodeFile.types r
        = [CodeType.class; CodeType.interface].
Proof.
  apply (parseCode_preserves_type_order
           Stub.classThenInterface "class Shape {} interface Drawable {}"
           (Stub.fresh Stub.classThenInterface) [] _ _ 1 2);
    reflexivity.
Defined.

(** C7 at [Stub.roundTrip]. *)
Lemma parseCode_round_trip_witness :
  parseImports Stub.roundTrip "X" 0
    = (Normal [ {| CodeImport.value := "a.b.C" |} ], 1)
  ∧ parseTypes Stub.roundTrip "X" 1 = (Normal [], 2)
  ∧ completion (parseCode "X" (Stub.fresh Stub.roundTrip)) =
      Normal {| ParsedCodeFile.imports := [ {| CodeImport.value := "a.b.C" |} ];
                ParsedCodeFile.types := [] |}.
Proof.
  split; [reflexivity|]. split; [reflexivity|].
  apply (parseCode_round_trip Stub.roundTrip (Stub.fresh Stub.roundTrip) 1 2);
    reflexivity.
Defined.

(** C8 at [Stub.nothing]. *)
Lemma parseCode_empty_input_witness :
  parseImports Stub.nothing "" 0 = (Normal [], 1)
  ∧ parseTypes Stub.nothing "" 1 = (Normal [], 2)
  ∧ completion (parseCode "" (Stub.fresh Stub.nothing)) =
      Normal {| ParsedCodeFile.imports := []; ParsedCodeFile.types := [] |}.
Proof.
  split; [reflexivity|]. split; [reflexivity|].
  apply (parseCode_empty_input Stub.nothing (Stub.fresh Stub.nothing) 1 2);
    reflexivity.
Defined.

(** C9 at [Stub.roundTrip], over three texts of which two make it throw. *)
Lemma parseCode_keeps_handler_witness :
  facade (final (parseEach ["X"; "Y"; ""] (Stub.fresh Stub.roundTrip)))
    = newCodeParser Stub.roundTrip
  ∧ Forall (λ ev, callee ev = Stub.roundTrip)
      (calls (parseEach ["X"; "Y"; ""] (Stub.fresh Stub.roundTrip))).
Proof.
  exact (proj2 (proj2 (parseCode_keeps_handler
                         Stub.roundTrip ["X"; "Y"; ""]
                         (Stub.fresh Stub.roundTrip) eq_refl))).
Defined.

(** C10 at [Stub.classThenInterface]. *)
Lemma parseCode_calls_each_once_witness :
  calls (parseCode "class Shape {}" (Stub.fresh Stub.classThenInterface))
    = [CallParseImports Stub.classThenInterface "class Shape {}";
       CallParseTypes Stub.classThenInterface "class Shape {}"]
  ∧ world (final (parseCode "class Shape {}"
                    (Stub.fresh Stub.classThenInterface))) = 2.
Proof.
  split; [|reflexivity].
  apply (parseCode_calls_each_once
           Stub.classThenInterface "class Shape {}"
           (Stub.fresh Stub.classThenInterface) []
           [ Stub.declared CodeType.class "Shape" [];
             Stub.declared CodeType.interface "Drawable" [] ] 1 2);
    reflexivity.
Defined.

(* ===================================================================== *)
(** ** Further properties of [parseCode] *)
(* ===================================================================== *)

(** X1.  The failure of the second call.  When [parseImports] returns and
    [parseTypes] throws [e], [parseCode] throws [e] after both calls were
    made, the imports already obtained are dropped, and the store is left as
    the two calls left it: what the handler did to its state before throwing
    is not undone, and the receiver is untouched. *)
Theorem parseCode_types_failure {W E : Type} (h : @LanguageHandler W E)
    (c : string) (s : Store) (imps : list CodeImport.t) (e : E) (w1 w2 : W) :
  facade s = newCodeParser h →
  parseImports h c (world s) = (Normal imps, w1) →
  parseTypes h c w1 = (Throw e, w2) →
  completion (parseCode c s) = Throw e
  ∧ calls (parseCode c s) = [CallParseImports h c; CallParseTypes h c]
  ∧ world (final (parseCode c s)) = w2
  ∧ facade (final (parseCode c s)) = newCodeParser h.
Proof.
  intros Hf Hi Ht.
  rewrite (parseCode_types_throw h c s imps e w1 w2); [| now rewrite Hf | done..].
  cbn. now rewrite Hf.
Qed.

(** X2.  Which calls a run makes, for any handler and any text, returning or
    throwing: [parseImports] is invoked exactly once; [parseTypes] is invoked
    (once) exactly when [parseImports] returned, and not at all exactly when
    it threw.  So a run makes one or two handler calls, never none and never
    more. *)
Theorem parseCode_invocations {W E : Type} (h : @LanguageHandler W E)
    (c : string) (s : Store) :
  facade s = newCodeParser h →
  filter isParseImports (calls (parseCode c s)) = [CallParseImports h c]
  ∧ (filter isParseTypes (calls (parseCode c s)) = [CallParseTypes h c]
     ↔ ∃ imps, (parseImports h c (world s)).1 = Normal imps)
  ∧ (filter isParseTypes (calls (parseCode c s)) = []
     ↔ ∃ e, (parseImports h c (world s)).1 = Throw e)
  ∧ 1 ≤ length (calls (parseCode c s)) ≤ 2.
Proof.
  intros Hf. rewrite parseCode_run; cbn. rewrite Hf; cbn.
  destruct (parseImports h c (world s)) as [[imps|e] w1]; cbn.
  - split; [reflexivity|]. split; [|split; [|lia]].
    + split; [eauto|reflexivity].
    + split; [discriminate|]. intros [? ?]; discriminate.
  - split; [reflexivity|]. split; [|split; [|lia]].
    + split; [discriminate|]. intros [? ?]; discriminate.
    + split; [eauto|reflexivity].
Qed.

(** X3.  With a stateless handler [parseCode] leaves the whole store as it
    found it, whether it returns or throws; invoking it again on the same
    text then completes the same way. *)
Theorem parseCode_stateless_frame {W E : Type} (h : @LanguageHandler W E)
    (c : string) (s : Store) :
  stateless h →
  facade s = newCodeParser h →
  final (parseCode c s) = s
  ∧ completion (parseCode c (final (parseCode c s))) = completion (parseCode c s).
Proof.
  intros Hst Hf.
  assert (Hfinal : final (parseCode c s) = s).
  { rewrite parseCode_run; cbn. rewrite Hf; cbn.
    destruct (Hst c (world s)) as [Hi _].
    destruct (Hst c (parseImports h c (world s)).2) as [_ Ht].
    destruct s as [p w]; cbn in *. subst p.
    destruct (parseImports h c w) as [[imps|e] w1]; cbn in *.
    - rewrite Ht. now subst w1.
    - now subst w1. }
  split; [exact Hfinal|]. now rewrite Hfinal.
Qed.

(** X1 at [Stub.typesThrow]: both calls are counted although the run throws. *)
Lemma parseCode_types_failure_witness :
  parseImports Stub.typesThrow "class A {}" 0 = (Normal [], 1)
  ∧ parseTypes Stub.typesThrow "class A {}" 1 = (Throw "bad type", 2)
  ∧ completion (parseCode "class A {}" (Stub.fresh Stub.typesThrow))
      = Throw "bad type"
  ∧ world (final (parseCode "class A {}" (Stub.fresh Stub.typesThrow))) = 2.
Proof.
  split; [reflexivity|]. split; [reflexivity|].
  destruct (parseCode_types_failure
              Stub.typesThrow "class A {}" (Stub.fresh Stub.typesThrow)
              [] "bad type" 1 2 eq_refl eq_refl eq_refl)
    as (Hthrow & _ & Hworld & _).
  split; [exact Hthrow | exact Hworld].
Defined.

(** X2 at [Stub.importsThrow]: one call to [parseImports], none to
    [parseTypes]. *)
Lemma parseCode_invocations_witness :
  filter isParseImports (calls (parseCode "import x" (Stub.fresh Stub.importsThrow)))
    = [CallParseImports Stub.importsThrow "import x"]
  ∧ filter isParseTypes (calls (parseCode "import x" (Stub.fresh Stub.importsThrow)))
    = [].
Proof.
  destruct (parseCode_invocations
              Stub.importsThrow "import x" (Stub.fresh Stub.importsThrow) eq_refl)
    as (Honce & _ & Hnone & _).
  split; [exact Honce|]. apply Hnone. now exists "bad import".
Defined.

(** X3 at [statelessStub], on a text whose types make it throw. *)
Lemma parseCode_stateless_frame_witness :
  stateless statelessStub
  ∧ final (parseCode "?" (Stub.fresh statelessStub)) = Stub.fresh statelessStub
  ∧ completion (parseCode "?" (final (parseCode "?" (Stub.fresh statelessStub))))
    = completion (parseCode "?" (Stub.fresh statelessStub)).
Proof.
  assert (Hst : stateless statelessStub) by (intros c w; split; reflexivity).
  split; [exact Hst|].
  exact (parseCode_stateless_frame
           statelessStub "?" (Stub.fresh statelessStub) Hst eq_refl).
Defined.
